(** * erroneous: structured errors with a message, a cause, fields and a
      source position

    A shallow embedding of [erroneous.go].  Records live in a heap and are
    handled through pointers, as in the Go code: [New] allocates the builder,
    the configuration units write through the pointer they receive, and the
    value handed back is an [error] interface holding either that pointer or
    whatever error a unit returned.

    Two things the package imports are not part of it:
    - [runtime.Caller] is taken as an argument of [New] (the call stack is
      the caller's, not the package's);
    - [json.Marshal] is described in module [Json] for the kinds of values
      the development stores in a field map. *)

From Stdlib Require Import ZArith Ascii String.
From stdpp Require Import base option list gmap strings pretty sorting.

Local Open Scope string_scope.

(** ** Results of a call

    A Go call either returns or panics (nil dereference).  [OutOfFuel] is
    the third answer of the fuelled interpreter of dynamic [Error()] calls
    below; no Go execution corresponds to it. *)

Inductive outcome (A : Type) : Type :=
  | Ret (a : A)
  | Panic
  | OutOfFuel.
Arguments Ret {A} a.
Arguments Panic {A}.
Arguments OutOfFuel {A}.

#[global] Instance outcome_ret : MRet outcome := λ A a, Ret a.
#[global] Instance outcome_bind : MBind outcome := λ A B f m,
  match m with
  | Ret a => f a
  | Panic => Panic
  | OutOfFuel => OutOfFuel
  end.

(** ** Values *)

(** Addresses of allocated [Erroneous] structs. *)
Abbreviation loc := positive.

(** A [*Erroneous]: [None] is the nil pointer. *)
Definition ptr := option loc.

(** A non-nil [error] interface value, by dynamic type: a [*Erroneous]
    (whose pointer may itself be nil), or a value of any other error type,
    of which the package only ever asks its [Error()] text. *)
Inductive dynerr : Type :=
  | own (p : ptr)
  | foreign (text : string).

(** The [error] interface: [None] is the nil interface. *)
Definition error := option dynerr.

(** What an [interface{}] stored in a field map holds.  [VNil] is the nil
    interface; [VError] is a value whose dynamic type implements [error]
    (the only thing [Msg] asks of a value); [VFunc] stands for the kinds
    encoding/json cannot encode. *)
Inductive value : Type :=
  | VNil
  | VBool (b : bool)
  | VInt (n : Z)
  | VString (s : string)
  | VError (d : dynerr)
  | VFunc.

(** [type ErrFields map[string]interface{}]; [None] is the nil map. *)
Definition ErrFields := option (gmap string value).

(** [type Erroneous struct].  The two [int] fields are only stored, printed
    and handed to [runtime.Caller]; no arithmetic is done on them. *)
Record Erroneous : Type := mkErroneous {
  msg : string;
  err : error;
  fields : ErrFields;
  file : string;
  line : Z;
  depth : Z
}.

(** The allocated records, by address. *)
Abbreviation heap := (gmap loc Erroneous).

#[global] Instance dynerr_eq_dec : EqDecision dynerr.
Proof. solve_decision. Defined.
#[global] Instance value_eq_dec : EqDecision value.
Proof. solve_decision. Defined.
#[global] Instance Erroneous_eq_dec : EqDecision Erroneous.
Proof. solve_decision. Defined.

(** ** encoding/json on field maps

    What [json.Marshal] of Go's standard library (as of Go 1.22) writes for
    an [ErrFields]: [null] for the nil map; for a non-nil map an object, so
    [{}] when it has no entry, with the entries in the byte order of their
    keys; strings quoted with the HTML-safe escaping that [Marshal] turns on;
    an error and no bytes when a value is of a kind that has no encoding. *)

Module Json.

(** The double quote, which a string literal cannot hold undoubled. *)
Definition dquote : ascii := "034"%char.

Definition hex_digit (n : N) : ascii :=
  default "0"%char (String.get (N.to_nat n) "0123456789abcdef").

(** One byte below 0x80: copied when it is in the encoder's HTML-safe set
    (0x20..0x7f without the quote, the backslash and [<], [>], [&]),
    escaped otherwise. *)
Definition escape_ascii (a : ascii) : string :=
  let b := N_of_ascii a in
  if (b =? 92)%N || (b =? 34)%N then String "\"%char (String a "")
  else if (b =? 8)%N then "\b"
  else if (b =? 12)%N then "\f"
  else if (b =? 10)%N then "\n"
  else if (b =? 13)%N then "\r"
  else if (b =? 9)%N then "\t"
  else if (b <? 32)%N || (b =? 60)%N || (b =? 62)%N || (b =? 38)%N then
    "\u00" +:+ String (hex_digit (b / 16)) (String (hex_digit (b mod 16)) "")
  else String a "".

Definition byte_in (lo hi : N) (o : option ascii) : bool :=
  match o with
  | Some a => (lo <=? N_of_ascii a)%N && (N_of_ascii a <=? hi)%N
  | None => false
  end.

(** Width of the well-formed UTF-8 sequence led by byte [b0] (at least
    0x80) and continued by [rest]; [None] where decoding gives the
    replacement rune with width one. *)
Definition utf8_width (b0 : N) (rest : string) : option nat :=
  let b1 := String.get 0 rest in
  let b2 := String.get 1 rest in
  let b3 := String.get 2 rest in
  let cont := byte_in 128 191 in
  let second :=
    if (b0 =? 224)%N then byte_in 160 191
    else if (b0 =? 237)%N then byte_in 128 159
    else if (b0 =? 240)%N then byte_in 144 191
    else if (b0 =? 244)%N then byte_in 128 143
    else cont in
  if (194 <=? b0)%N && (b0 <=? 223)%N then
    if second b1 then Some 2 else None
  else if (224 <=? b0)%N && (b0 <=? 239)%N then
    if second b1 && cont b2 then Some 3 else None
  else if (240 <=? b0)%N && (b0 <=? 244)%N then
    if second b1 && cont b2 && cont b3 then Some 4 else None
  else None.

(** The body of a quoted string.  [k] counts the bytes still owed to the
    multi-byte rune being passed over, [keep] says whether they are
    copied (an ordinary rune) or were replaced (U+2028, U+2029). *)
Fixpoint quote_go (k : nat) (keep : bool) (src : string) : string :=
  match src with
  | EmptyString => EmptyString
  | String a rest =>
    match k with
    | S k' =>
      if keep then String a (quote_go k' keep rest)
      else quote_go k' keep rest
    | O =>
      let b := N_of_ascii a in
      if (b <? 128)%N then escape_ascii a +:+ quote_go 0 true rest
      else
        match utf8_width b rest with
        | None => ("\u" +:+ "fffd") +:+ quote_go 0 true rest
        | Some w =>
          if (b =? 226)%N && byte_in 128 128 (String.get 0 rest)
             && byte_in 168 169 (String.get 1 rest)
          then "\u202" +:+
               String (hex_digit (default 0%N
                         (N_of_ascii <$> String.get 1 rest) mod 16)) ""
               +:+ quote_go (w - 1) false rest
          else String a (quote_go (w - 1) true rest)
        end
    end
  end.

Definition quote (s : string) : string :=
  String dquote (quote_go 0 true s) +:+ String dquote "".

(** One value of a field map; [None] is an unsupported kind.  The structs
    behind an error ([Erroneous], and the plain errors of [errors.New] and
    [fmt.Errorf]) export no field and encode as the empty object; a nil
    pointer encodes as null. *)
Definition encode_value (v : value) : option string :=
  match v with
  | VNil => Some "null"
  | VBool b => Some (if b then "true" else "false")
  | VInt n => Some (pretty n)
  | VString s => Some (quote s)
  | VError (own None) => Some "null"
  | VError _ => Some "{}"
  | VFunc => None
  end.

Definition key_le (a b : string * value) : Prop := String.leb a.1 b.1 = true.

#[global] Instance key_le_dec a b : Decision (key_le a b).
Proof. unfold key_le. apply _. Defined.

Definition encode_entry (kv : string * value) : option string :=
  v ← encode_value kv.2; Some (quote kv.1 +:+ ":" +:+ v).

(** A non-nil map: its entries in key order, between braces. *)
Definition encode_map (m : gmap string value) : option string :=
  entries ← mapM encode_entry (merge_sort key_le (map_to_list m));
  Some ("{" +:+ String.concat "," entries +:+ "}").

(** [json.Marshal(fields)]: the bytes and the error.  On an error the
    bytes are nil. *)
Definition Marshal (f : ErrFields) : string * error :=
  match f with
  | None => ("null", None)
  | Some m =>
    match encode_map m with
    | Some data => (data, None)
    | None => ("", Some (foreign "json: unsupported type: func()"))
    end
  end.

End Json.

(** [fmt.Sprintf(" [%s:%d]", file, line)]. *)
Definition Sprintf_source (file : string) (line : Z) : string :=
  " [" +:+ file +:+ ":" +:+ pretty line +:+ "]".

(** ** Memory *)

(** Reading through a [*Erroneous].  The nil pointer panics.  An address
    that was never allocated cannot be held by a Go program; the model
    answers [Panic] there as well. *)
Definition deref (h : heap) (e : ptr) : outcome Erroneous :=
  match e with
  | None => Panic
  | Some l =>
    match h !! l with
    | Some r => Ret r
    | None => Panic
    end
  end.

(** Writing through a [*Erroneous]: [e.field = ...]. *)
Definition store (h : heap) (e : ptr) (f : Erroneous → Erroneous) : outcome heap :=
  r ← deref h e;
  match e with
  | Some l => Ret (<[l := f r]> h)
  | None => Panic
  end.

Definition set_msg (m : string) (r : Erroneous) : Erroneous :=
  mkErroneous m (err r) (fields r) (file r) (line r) (depth r).
Definition set_err (c : error) (r : Erroneous) : Erroneous :=
  mkErroneous (msg r) c (fields r) (file r) (line r) (depth r).
Definition set_fields (f : ErrFields) (r : Erroneous) : Erroneous :=
  mkErroneous (msg r) (err r) f (file r) (line r) (depth r).
Definition set_file (f : string) (r : Erroneous) : Erroneous :=
  mkErroneous (msg r) (err r) (fields r) f (line r) (depth r).
Definition set_line (n : Z) (r : Erroneous) : Erroneous :=
  mkErroneous (msg r) (err r) (fields r) (file r) n (depth r).
Definition set_depth (n : Z) (r : Erroneous) : Erroneous :=
  mkErroneous (msg r) (err r) (fields r) (file r) (line r) n.

(** ** Methods of [*Erroneous] *)

Section methods.

(** The heap the receiver points into, and the method [Error()] of the
    dynamic type of a cause ([e.err.Error()]). *)
Context (h : heap) (dispatch : dynerr → outcome string).

(** [func (e *Erroneous) Message() string] *)
Definition Message_body (e : ptr) : outcome string :=
  r ← deref h e;
  let m := msg r in
  match err r with
  | Some d =>
    let m := if decide (m = "") then m else m +:+ ": " in
    t ← dispatch d;
    Ret (m +:+ t)
  | None => Ret m
  end.

(** [func (e *Erroneous) Error() string] *)
Definition Error_body (e : ptr) : outcome string :=
  match e with
  | None => Ret "unknown error"
  | Some _ =>
    m ← Message_body e;
    r ← deref h e;
    let m :=
      if decide (file r = "") then m
      else m +:+ Sprintf_source (file r) (line r) in
    let m :=
      match fields r with
      | Some _ =>
        let data := (Json.Marshal (fields r)).1 in
        if decide (0 < String.length data) then m +:+ "  " +:+ data else m
      | None => m
      end in
    Ret m
  end.

End methods.

(** [err.Error()] on a non-nil interface: the method of the dynamic type.
    The fuel bounds the chain of causes that may be followed. *)
Fixpoint dyn_Error (fuel : nat) (h : heap) (d : dynerr) : outcome string :=
  match fuel with
  | O => OutOfFuel
  | S fuel =>
    match d with
    | foreign text => Ret text
    | own e => Error_body h (dyn_Error fuel h) e
    end
  end.

(** A method call on an [error] interface; on the nil interface it panics. *)
Definition error_Error (fuel : nat) (h : heap) (x : error) : outcome string :=
  match x with
  | Some d => dyn_Error fuel h d
  | None => Panic
  end.

Definition Erroneous_Message (fuel : nat) (h : heap) (e : ptr) : outcome string :=
  Message_body h (dyn_Error fuel h) e.

Definition Erroneous_Error (fuel : nat) (h : heap) (e : ptr) : outcome string :=
  Error_body h (dyn_Error fuel h) e.

(** [func (e *Erroneous) Source() (string, int)] *)
Definition Erroneous_Source (h : heap) (e : ptr) : outcome (string * Z) :=
  r ← deref h e; Ret (file r, line r).

(** [func (e *Erroneous) Fields() ErrFields] *)
Definition Erroneous_Fields (h : heap) (e : ptr) : outcome ErrFields :=
  r ← deref h e; Ret (fields r).

(** ** Configuration units *)

(** [type ErrOpts func(e *Erroneous) error]: a closure that may write to
    memory and returns an [error]. *)
Definition ErrOpts := ptr → heap → outcome (error * heap).

(** [func Err(err error) ErrOpts] *)
Definition Err (err : error) : ErrOpts := λ e h,
  match err with
  | Some (own _) => Ret (err, h)
  | _ => h ← store h e (set_err err); Ret (None, h)
  end.

(** [func Msg(msg string, fields ErrFields) ErrOpts] *)
Definition Msg (msg : string) (fields : ErrFields) : ErrOpts := λ e h,
  h ← store h e (set_msg msg);
  match fields with
  | Some m =>
    h ← store h e (set_fields fields);
    match m !! "error" with
    | Some (VError err) => Err (Some err) e h
    | _ => Ret (None, h)
    end
  | None => Ret (None, h)
  end.

(** [func Fields(fields ErrFields) ErrOpts] *)
Definition Fields (fields : ErrFields) : ErrOpts := λ e h,
  h ← store h e (set_fields fields); Ret (None, h).

(** [func Source(file string, line int) ErrOpts] *)
Definition Source (file : string) (line : Z) : ErrOpts := λ e h,
  h ← store h e (set_file file);
  h ← store h e (set_line line);
  Ret (None, h).

(** [func Depth(depth int) ErrOpts] *)
Definition Depth (depth : Z) : ErrOpts := λ e h,
  h ← store h e (set_depth depth); Ret (None, h).

(** The five units the package offers. *)
Inductive standard : ErrOpts → Prop :=
  | standard_Msg m f : standard (Msg m f)
  | standard_Fields f : standard (Fields f)
  | standard_Err x : standard (Err x)
  | standard_Source f n : standard (Source f n)
  | standard_Depth n : standard (Depth n).

(** ** The constructor *)

(** [for _, fn := range opts { err := fn(e); if err != nil { return err } }]:
    the error that leaves the loop early, or nil when the loop ends. *)
Fixpoint range_opts (opts : list ErrOpts) (e : ptr) (h : heap)
  : outcome (error * heap) :=
  match opts with
  | [] => Ret (None, h)
  | fn :: opts =>
    '(err, h) ← fn e h;
    match err with
    | Some _ => Ret (err, h)
    | None => range_opts opts e h
    end
  end.

(** [&Erroneous{depth: 2}] *)
Definition builder : Erroneous := mkErroneous "" None None "" 0 2.

(** [if e.file == "" { _, file, line, ok := runtime.Caller(e.depth); ... }] *)
Definition capture (Caller : Z → option (string * Z)) (e : ptr) (h : heap)
  : outcome heap :=
  r ← deref h e;
  if decide (file r = "") then
    match Caller (depth r) with
    | Some (f, n) =>
      h ← store h e (set_file f);
      store h e (set_line n)
    | None => Ret h
    end
  else Ret h.

(** [func New(opts ...ErrOpts) error].  [Caller] is [runtime.Caller] as it
    answers from the frame of this call: the file and line found [skip]
    frames up, or nothing. *)
Definition New (Caller : Z → option (string * Z)) (opts : list ErrOpts)
  (h : heap) : outcome (error * heap) :=
  let l := fresh (dom h) in
  let e : ptr := Some l in
  let h := <[l := builder]> h in
  '(err, h) ← range_opts opts e h;
  match err with
  | Some _ => Ret (err, h)
  | None =>
    h ← capture Caller e h;
    Ret (Some (own e), h)
  end.

(** Heaps that the package itself can have built: from nothing, by calls of
    [New] on standard units, each call under its own call stack. *)
Inductive built : heap → Prop :=
  | built_empty : built ∅
  | built_New Caller opts h x h' :
      built h → Forall standard opts → New Caller opts h = Ret (x, h') → built h'.

(** A stand-in for [runtime.Caller] in examples: a list of frames, of which
    [skip] selects one. *)
Definition stack_Caller (frames : list (string * Z)) (skip : Z)
  : option (string * Z) :=
  if decide (0 ≤ skip)%Z then frames !! Z.to_nat skip else None.

(** Inputs used by the examples below. *)

(** Three frames: the constructor's own, its caller, and the caller's
    caller. *)
Definition three_frames : Z → option (string * Z) :=
  stack_Caller [("erroneous.go", 136%Z); ("main.go", 7%Z); ("proc.go", 250%Z)].

(** A stack on which nothing can be resolved. *)
Definition no_frames : Z → option (string * Z) := stack_Caller [].

Definition empty_fields_record : Erroneous :=
  mkErroneous "m" None (Some ∅) "" 0 2.
Definition nil_fields_record : Erroneous :=
  mkErroneous "m" None None "" 0 2.

(** Two records side by side, equal but for their fields. *)
Definition twin_heap : heap :=
  {[ 1%positive := empty_fields_record; 2%positive := nil_fields_record ]}.

(** The heap after [New(Msg("a", nil))] and [New(Msg("b", nil))]. *)
Definition two_records : heap :=
  {[ 1%positive := mkErroneous "a" None None "proc.go" 250 2;
     2%positive := mkErroneous "b" None None "proc.go" 250 2 ]}.

Definition k_v : gmap string value := {[ "k" := VString "v" ]}.

(** Whether the dynamic type of an [error] is [*Erroneous] (the type
    assertion in [Err]). *)
Definition is_own (x : error) : bool :=
  match x with
  | Some (own _) => true
  | _ => false
  end.

(** The segment [Error()] appends for the source position. *)
Definition source_segment (r : Erroneous) : string :=
  if decide (file r = "") then "" else Sprintf_source (file r) (line r).

(** The segment [Error()] appends for the fields. *)
Definition fields_segment (r : Erroneous) : string :=
  match fields r with
  | Some _ =>
    let data := (Json.Marshal (fields r)).1 in
    if decide (0 < String.length data) then "  " +:+ data else ""
  | None => ""
  end.

(** ** Kinds of units *)

(** Whether [Msg] returns nil on a field map: it does unless the map holds
    a [*Erroneous] under the key "error". *)
Definition no_own_entry (f : ErrFields) : bool :=
  match f with
  | Some m =>
    match m !! "error" with
    | Some (VError (own _)) => false
    | _ => true
    end
  | None => true
  end.

(** Standard units that return nil whatever the builder holds.  [src] says
    whether [Source] units are among them, [dep] whether [Depth] units
    are. *)
Inductive quiet (src dep : bool) : ErrOpts → Prop :=
  | quiet_Msg m f : no_own_entry f = true → quiet src dep (Msg m f)
  | quiet_Fields f : quiet src dep (Fields f)
  | quiet_Err x : is_own x = false → quiet src dep (Err x)
  | quiet_Source f n : src = true → quiet src dep (Source f n)
  | quiet_Depth n : dep = true → quiet src dep (Depth n).

(** What the capture step of [New] makes of the record the units left. *)
Definition captured (Caller : Z → option (string * Z)) (r : Erroneous)
  : Erroneous :=
  if decide (file r = "") then
    match Caller (depth r) with
    | Some (f, n) => set_line n (set_file f r)
    | None => r
    end
  else r.

(** * Properties *)

(** ** Strings and the result monad *)

Lemma append_assoc (a b c : string) : (a +:+ b) +:+ c = a +:+ (b +:+ c).
Proof.
  induction a as [|x a IH]; [done|].
  change (String x ((a +:+ b) +:+ c) = String x (a +:+ (b +:+ c))).
  by rewrite IH.
Qed.

Lemma append_nil_r (a : string) : a +:+ "" = a.
Proof.
  induction a as [|x a IH]; [done|].
  change (String x (a +:+ "") = String x a).
  by rewrite IH.
Qed.

Lemma bind_Ret {A B} (a : A) (k : A → outcome B) : (Ret a ≫= k) = k a.
Proof. done. Qed.

(** ** Memory *)

Lemma deref_Some h l r : h !! l = Some r → deref h (Some l) = Ret r.
Proof. intros Hl. unfold deref. by rewrite Hl. Qed.

Lemma store_Some h l r f :
  h !! l = Some r → store h (Some l) f = Ret (<[l := f r]> h).
Proof. intros Hl. unfold store. by rewrite (deref_Some _ _ _ Hl). Qed.

(** ** Rendering *)

Lemma dyn_Error_foreign fuel h t : dyn_Error (S fuel) h (foreign t) = Ret t.
Proof. done. Qed.

(** The text [Message()] puts after the stored message is the only thing
    that depends on the cause. *)
Lemma Message_unfold fuel h l r :
  h !! l = Some r →
  Erroneous_Message fuel h (Some l) =
    match err r with
    | Some d =>
      t ← dyn_Error fuel h d;
      Ret ((if decide (msg r = "") then msg r else msg r +:+ ": ") +:+ t)
    | None => Ret (msg r)
    end.
Proof.
  intros Hl. unfold Erroneous_Message, Message_body.
  by rewrite (deref_Some _ _ _ Hl).
Qed.

Lemma Error_unfold fuel h l r :
  h !! l = Some r →
  Erroneous_Error fuel h (Some l) =
    (m ← Erroneous_Message fuel h (Some l);
     Ret (m +:+ source_segment r +:+ fields_segment r)).
Proof.
  intros Hl. unfold Erroneous_Error, Erroneous_Message, Error_body.
  destruct (Message_body h (dyn_Error fuel h) (Some l)) as [m| |]; [|done..].
  rewrite !bind_Ret, (deref_Some _ _ _ Hl), bind_Ret.
  unfold source_segment, fields_segment.
  destruct (decide (file r = "")), (fields r); simpl;
    repeat case_decide; by rewrite ?append_assoc, ?append_nil_r.
Qed.

(** ** Units and the constructor *)

Lemma store_insert h l r f :
  store (<[l := r]> h) (Some l) f = Ret (<[l := f r]> h).
Proof.
  rewrite (store_Some _ l r) by apply lookup_insert_eq.
  by rewrite insert_insert_eq.
Qed.

Lemma fresh_unallocated (h : heap) : h !! fresh (dom h) = None.
Proof. apply not_elem_of_dom, is_fresh. Qed.

Lemma range_opts_app pre post e h :
  range_opts (pre ++ post) e h =
    ('(x, h1) ← range_opts pre e h;
     match x with
     | Some _ => Ret (x, h1)
     | None => range_opts post e h1
     end).
Proof.
  revert h. induction pre as [|fn pre IH]; intros h; simpl; [done|].
  destruct (fn e h) as [[[d|] h1]| |]; simpl; first [done | apply IH].
Qed.

(** A standard unit applied to an allocated builder returns, writes to the
    builder only, and never stores a [*Erroneous] as the cause. *)
Lemma standard_step fn l r h :
  standard fn →
  ∃ x r', fn (Some l) (<[l := r]> h) = Ret (x, <[l := r']> h)
          ∧ (is_own (err r) = false → is_own (err r') = false).
Proof.
  destruct 1 as [m f|f|x|f n|n].
  - unfold Msg. rewrite store_insert, bind_Ret.
    destruct f as [fm|]; [|by eexists _, _].
    rewrite store_insert, bind_Ret.
    destruct (fm !! "error") as [[| | | |[p|t]|]|]; try by eexists _, _.
    unfold Err. rewrite store_insert. by eexists _, _.
  - unfold Fields. rewrite store_insert. by eexists _, _.
  - unfold Err. destruct x as [[p|t]|]; [by eexists _, _|..];
      rewrite store_insert; by eexists _, _.
  - unfold Source. rewrite store_insert, bind_Ret, store_insert. by eexists _, _.
  - unfold Depth. rewrite store_insert. by eexists _, _.
Qed.

Lemma range_standard opts l r h :
  Forall standard opts →
  ∃ x r', range_opts opts (Some l) (<[l := r]> h) = Ret (x, <[l := r']> h)
          ∧ (is_own (err r) = false → is_own (err r') = false).
Proof.
  intros Hstd. revert r.
  induction Hstd as [|fn opts Hfn _ IH]; intros r; simpl; [by eexists _, _|].
  destruct (standard_step fn l r h Hfn) as (x & r1 & -> & Hr1).
  rewrite bind_Ret. destruct x as [d|]; [by eexists _, _|].
  destruct (IH r1) as (x & r2 & -> & Hr2). eexists _, _. split; [done|auto].
Qed.

(** The source-capture step on an allocated builder. *)
Lemma capture_Some Caller l r h :
  h !! l = Some r →
  capture Caller (Some l) h =
    Ret (if decide (file r = "") then
           match Caller (depth r) with
           | Some (f, n) => <[l := set_line n (set_file f r)]> h
           | None => h
           end
         else h).
Proof.
  intros Hl. unfold capture. rewrite (deref_Some _ l r Hl), bind_Ret.
  case_decide; [|done].
  destruct (Caller (depth r)) as [[f n]|]; [|done].
  by rewrite (store_Some _ l r _ Hl), bind_Ret, store_insert.
Qed.

Lemma capture_insert Caller l r h :
  capture Caller (Some l) (<[l := r]> h) =
    Ret (if decide (file r = "") then
           match Caller (depth r) with
           | Some (f, n) => <[l := set_line n (set_file f r)]> h
           | None => <[l := r]> h
           end
         else <[l := r]> h).
Proof.
  rewrite (capture_Some _ l r) by apply lookup_insert_eq.
  case_decide; [|done].
  destruct (Caller (depth r)) as [[f n]|]; [|done].
  by rewrite insert_insert_eq.
Qed.

(** A call of [New] on standard units returns, allocates one record and
    leaves every other record as it was; the new record has no [*Erroneous]
    as its cause. *)
Lemma New_standard Caller opts h :
  Forall standard opts →
  ∃ x r', New Caller opts h = Ret (x, <[fresh (dom h) := r']> h)
          ∧ is_own (err r') = false.
Proof.
  intros Hstd. unfold New.
  destruct (range_standard opts (fresh (dom h)) builder h Hstd)
    as (x & r1 & -> & Hr1).
  rewrite bind_Ret. destruct x as [d|]; [eexists _, _; split; [done|auto]|].
  rewrite capture_insert, bind_Ret.
  case_decide; [destruct (Caller (depth r1)) as [[f n]|]|];
    eexists _, _; (split; [done|]); by apply Hr1.
Qed.

Lemma built_no_own_cause h :
  built h → ∀ l r, h !! l = Some r → is_own (err r) = false.
Proof.
  induction 1 as [|Caller opts h x h' _ IH Hstd HNew]; intros l r Hl.
  - by rewrite lookup_empty in Hl.
  - destruct (New_standard Caller opts h Hstd) as (x' & r' & HNew' & Hr').
    rewrite HNew in HNew'. injection HNew' as _ ->.
    destruct (decide (l = fresh (dom h))) as [->|Hne].
    + rewrite lookup_insert_eq in Hl. by injection Hl as <-.
    + rewrite lookup_insert_ne in Hl by done. by eapply IH.
Qed.

(** Runs the units of a literal argument list on the allocated builder. *)
Ltac run_units :=
  unfold New; cbn [range_opts];
  unfold Msg, Fields, Source, Depth, Err;
  repeat (rewrite ?store_insert, ?bind_Ret, ?capture_insert; cbn beta iota).

(** ** The renderer *)

(** C9: [Error()] on a nil [*Erroneous] returns the literal "unknown error",
    on every heap and without following any cause; [Message()], which has no
    such test, panics on the same receiver. *)
Theorem Error_nil_receiver fuel h :
  Erroneous_Error fuel h None = Ret "unknown error"
  ∧ Erroneous_Message fuel h None = Panic.
Proof. done. Qed.

(** C3: [Message()] of a record is the stored message when the cause is nil;
    with a cause it is the message, the separator ": " and the cause's
    [Error()] text when the message is not empty, and the cause's text alone
    when it is.  For a cause of another error type the text is at hand, so
    the call returns. *)
Theorem Message_cases fuel h l r :
  h !! l = Some r →
  (err r = None → Erroneous_Message fuel h (Some l) = Ret (msg r))
  ∧ (∀ d, err r = Some d → msg r ≠ "" →
       Erroneous_Message fuel h (Some l) =
         (t ← error_Error fuel h (err r); Ret (msg r +:+ ": " +:+ t)))
  ∧ (∀ d, err r = Some d → msg r = "" →
       Erroneous_Message fuel h (Some l) = error_Error fuel h (err r))
  ∧ (∀ t, err r = Some (foreign t) →
       Erroneous_Message (S fuel) h (Some l) =
         Ret (if decide (msg r = "") then t else msg r +:+ ": " +:+ t)).
Proof.
  intros Hl. repeat split.
  - intros Hc. by rewrite (Message_unfold _ _ _ _ Hl), Hc.
  - intros d Hc Hm. rewrite (Message_unfold _ _ _ _ Hl), Hc. simpl.
    case_decide; [done|].
    destruct (dyn_Error fuel h d); simpl; by rewrite ?append_assoc.
  - intros d Hc Hm. rewrite (Message_unfold _ _ _ _ Hl), Hc. simpl.
    case_decide; [|done]. rewrite Hm. by destruct (dyn_Error fuel h d).
  - intros t Hc. rewrite (Message_unfold _ _ _ _ Hl), Hc.
    rewrite dyn_Error_foreign, bind_Ret.
    case_decide as Hm; [by rewrite Hm | by rewrite append_assoc].
Qed.

Lemma Message_cases_witness :
  Erroneous_Message 1 {[ 1%positive := mkErroneous "failed" (Some (foreign "boom")) None "" 0 2 ]}
    (Some 1%positive) = Ret "failed: boom".
Proof.
  pose proof (Message_cases 0
    {[ 1%positive := mkErroneous "failed" (Some (foreign "boom")) None "" 0 2 ]}
    1%positive _ (lookup_singleton_eq _ _)) as (_ & _ & _ & H).
  exact (H "boom" eq_refl).
Defined.

(** C4: [Error()] of a record is [Message()], then " [file:line]" exactly
    when the stored file is not empty, then two spaces and the encoded
    fields exactly when the fields are not nil and encode to a non-empty
    text.  For a record built with [Source("f.go", 10)] and
    [Fields({"k": "v"})], [Message()] is the base message alone and
    [Error()] is that message followed by " [f.go:10]", two spaces and the
    encoding of the fields. *)
Theorem Error_layout fuel h l r :
  h !! l = Some r →
  Erroneous_Error fuel h (Some l) =
    (m ← Erroneous_Message fuel h (Some l);
     Ret (m +:+ (if decide (file r = "") then ""
                 else Sprintf_source (file r) (line r))
            +:+ (match fields r with
                 | Some _ =>
                   if decide (0 < String.length (Json.Marshal (fields r)).1)
                   then "  " +:+ (Json.Marshal (fields r)).1 else ""
                 | None => ""
                 end)))
  ∧ (∀ Caller m, ∃ h',
       New Caller [Msg m None; Source "f.go" 10; Fields (Some k_v)] h
         = Ret (Some (own (Some (fresh (dom h)))), h')
       ∧ Erroneous_Message fuel h' (Some (fresh (dom h))) = Ret m
       ∧ Erroneous_Error fuel h' (Some (fresh (dom h))) =
           Ret (m +:+ " [f.go:10]" +:+ "  " +:+ (Json.Marshal (Some k_v)).1)
       ∧ (Json.Marshal (Some k_v)).1 =
           "{" +:+ String Json.dquote "k" +:+ String Json.dquote ":"
               +:+ String Json.dquote "v" +:+ String Json.dquote "}").
Proof.
  intros Hl. split; [apply (Error_unfold _ _ _ _ Hl)|].
  intros Caller m.
  set (r' := mkErroneous m None (Some k_v) "f.go" 10 2).
  exists (<[fresh (dom h) := r']> h). split; [by run_units|].
  assert (Hm : Erroneous_Message fuel (<[fresh (dom h) := r']> h)
                 (Some (fresh (dom h))) = Ret m).
  { by rewrite (Message_unfold _ _ _ r') by apply lookup_insert_eq. }
  split; [done|]. split; [|by vm_compute].
  rewrite (Error_unfold _ _ _ r') by apply lookup_insert_eq.
  by rewrite Hm.
Qed.

Lemma Error_layout_witness :
  Erroneous_Error 0 {[ 1%positive := mkErroneous "m" None (Some k_v) "f.go" 10 2 ]}
    (Some 1%positive)
  = Ret ("m [f.go:10]  {" +:+ String Json.dquote "k" +:+ String Json.dquote ":"
           +:+ String Json.dquote "v" +:+ String Json.dquote "}").
Proof.
  pose proof (Error_layout 0
    {[ 1%positive := mkErroneous "m" None (Some k_v) "f.go" 10 2 ]}
    1%positive _ (lookup_singleton_eq _ _)) as [H _].
  rewrite H. reflexivity.
Defined.

(** C2, as the code has it: of two records that differ only in that one has
    an empty field map and the other a nil one, [Error()] of the first is
    [Error()] of the second followed by two spaces and "{}"; [Fields()]
    tells them apart as well. *)
Theorem Error_empty_fields fuel h l1 l2 r :
  h !! l1 = Some r →
  fields r = Some ∅ →
  h !! l2 = Some (set_fields None r) →
  Erroneous_Error fuel h (Some l1) =
    (m ← Erroneous_Error fuel h (Some l2); Ret (m +:+ "  {}"))
  ∧ Erroneous_Fields h (Some l1) = Ret (Some ∅)
  ∧ Erroneous_Fields h (Some l2) = Ret None.
Proof.
  intros H1 Hf H2. split.
  - rewrite (Error_unfold _ _ _ _ H1), (Error_unfold _ _ _ _ H2).
    rewrite (Message_unfold _ _ _ _ H1), (Message_unfold _ _ _ _ H2).
    replace (fields_segment r) with "  {}"
      by (unfold fields_segment; by rewrite Hf).
    cbn [set_fields msg err]. unfold source_segment, fields_segment.
    cbn [set_fields file line fields].
    destruct (err r) as [d|]; [destruct (dyn_Error fuel h d)|]; simpl;
      by rewrite ?append_nil_r, ?append_assoc.
  - unfold Erroneous_Fields.
    by rewrite (deref_Some _ _ _ H1), (deref_Some _ _ _ H2), !bind_Ret, Hf.
Qed.

Lemma Error_empty_fields_witness :
  Erroneous_Error 0 twin_heap (Some 1%positive) =
    (m ← Erroneous_Error 0 twin_heap (Some 2%positive); Ret (m +:+ "  {}")).
Proof.
  exact (proj1 (Error_empty_fields 0 twin_heap 1 2 empty_fields_record
                  eq_refl eq_refl eq_refl)).
Defined.

(** C2, as stated, fails: a record with an empty field map renders a fields
    segment, so its [Error()] differs from that of its twin with nil
    fields. *)
Lemma empty_fields_are_rendered :
  Erroneous_Error 0 twin_heap (Some 1%positive) = Ret "m  {}"
  ∧ Erroneous_Error 0 twin_heap (Some 2%positive) = Ret "m"
  ∧ Erroneous_Error 0 twin_heap (Some 1%positive)
    ≠ Erroneous_Error 0 twin_heap (Some 2%positive).
Proof. by vm_compute. Qed.

(** ** The constructor *)

Lemma two_records_built : built two_records.
Proof.
  apply (built_New three_frames [Msg "b" None]
           {[ 1%positive := mkErroneous "a" None None "proc.go" 250 2 ]}
           (Some (own (Some 2%positive)))).
  - apply (built_New three_frames [Msg "a" None] ∅
             (Some (own (Some 1%positive)))).
    + constructor.
    + repeat constructor.
    + by vm_compute.
  - repeat constructor.
  - by vm_compute.
Qed.

(** C1, as the code has it: when the units before [Err(e1)] all return nil,
    [New] returns [e1] itself, whatever follows [Err(e1)] and whatever the
    call stack: the heap is the one the earlier units left, so no later unit
    and no source capture wrote to it.  When those earlier units are
    standard ones, the record behind [e1] is as it was before the call, and
    so is its [Message()]. *)
Theorem New_Err_own Caller pre post p h h1 :
  range_opts pre (Some (fresh (dom h))) (<[fresh (dom h) := builder]> h)
    = Ret (None, h1) →
  New Caller (pre ++ Err (Some (own p)) :: post) h = Ret (Some (own p), h1)
  ∧ (Forall standard pre →
     ∀ l r, p = Some l → h !! l = Some r →
       h1 !! l = Some r
       ∧ (is_own (err r) = false →
          ∀ fuel, Erroneous_Message fuel h1 p = Erroneous_Message fuel h p)).
Proof.
  intros Hpre. split.
  - unfold New. by rewrite range_opts_app, Hpre.
  - intros Hstd l r -> Hl.
    destruct (range_standard pre (fresh (dom h)) builder h Hstd)
      as (x & r' & Hrun & _).
    rewrite Hpre in Hrun. injection Hrun as _ ->.
    assert (Hl1 : <[fresh (dom h) := r']> h !! l = Some r).
    { rewrite lookup_insert_ne; [done|].
      intros <-. by rewrite fresh_unallocated in Hl. }
    split; [done|]. intros Hown fuel.
    rewrite (Message_unfold _ _ _ _ Hl1), (Message_unfold _ _ _ _ Hl).
    destruct (err r) as [[q|t]|]; [done| |done]. by destruct fuel.
Qed.

Lemma New_Err_own_witness :
  New three_frames
    ([Msg "x" None] ++ Err (Some (own (Some 1%positive))) :: [Msg "z" None])
    two_records
  = Ret (Some (own (Some 1%positive)),
         <[3%positive := set_msg "x" builder]> two_records)
  ∧ Erroneous_Message 0 (<[3%positive := set_msg "x" builder]> two_records)
      (Some 1%positive)
    = Erroneous_Message 0 two_records (Some 1%positive).
Proof.
  destruct (New_Err_own three_frames [Msg "x" None] [Msg "z" None]
              (Some 1%positive) two_records
              (<[3%positive := set_msg "x" builder]> two_records)
              ltac:(by vm_compute)) as [HNew Hsame].
  split; [exact HNew|].
  destruct (Hsame ltac:(repeat constructor) 1%positive
              (mkErroneous "a" None None "proc.go" 250 2) eq_refl eq_refl)
    as [_ HM].
  exact (HM eq_refl 0).
Defined.

(** C1, as stated, fails: with another [*Erroneous] handed to [Err] first,
    [New] returns that one and not the [e1] of the later [Err(e1)]. *)
Lemma New_Err_own_preceded :
  built two_records
  ∧ New three_frames
      [Err (Some (own (Some 1%positive))); Err (Some (own (Some 2%positive)))]
      two_records
    = Ret (Some (own (Some 1%positive)), <[3%positive := builder]> two_records)
  ∧ Some (own (Some 1%positive)) ≠ Some (own (Some 2%positive)).
Proof. split; [apply two_records_built | by vm_compute]. Qed.

(** C10: [Err] of a nil [*Erroneous] short-circuits like any other
    [*Erroneous]: [New] returns that typed nil, which is not the nil
    interface, and its [Error()] is "unknown error". *)
Theorem New_Err_typed_nil Caller rest h :
  ∃ h',
    New Caller (Err (Some (own None)) :: rest) h = Ret (Some (own None), h')
    ∧ Some (own None) ≠ (None : error)
    ∧ ∀ fuel, error_Error (S fuel) h' (Some (own None)) = Ret "unknown error".
Proof. by eexists. Qed.

Lemma New_Err_typed_nil_witness :
  ∃ h',
    New no_frames [Err (Some (own None)); Msg "late" None] ∅
      = Ret (Some (own None), h')
    ∧ error_Error 1 h' (Some (own None)) = Ret "unknown error".
Proof.
  destruct (New_Err_typed_nil no_frames [Msg "late" None] ∅)
    as (h' & HNew & _ & HE).
  exists h'. split; [exact HNew | exact (HE 0)].
Defined.

(** C6, as the code has it: the builder starts with depth 2.  When no unit
    short-circuits and [r] is the record the units leave: if its file is
    empty, the caller is resolved at its depth, and a resolved file and line
    are stored, while a failed resolution leaves the record as the units
    left it; if its file is not empty, nothing is resolved or written.  In
    every case [New] returns the record. *)
Theorem New_capture Caller opts h h1 r :
  range_opts opts (Some (fresh (dom h))) (<[fresh (dom h) := builder]> h)
    = Ret (None, h1) →
  h1 !! fresh (dom h) = Some r →
  depth builder = 2%Z
  ∧ (file r = "" → ∀ f n, Caller (depth r) = Some (f, n) →
       New Caller opts h =
         Ret (Some (own (Some (fresh (dom h)))),
              <[fresh (dom h) :=
                  mkErroneous (msg r) (err r) (fields r) f n (depth r)]> h1))
  ∧ (file r = "" → Caller (depth r) = None →
       New Caller opts h = Ret (Some (own (Some (fresh (dom h)))), h1))
  ∧ (file r ≠ "" →
       New Caller opts h = Ret (Some (own (Some (fresh (dom h)))), h1)).
Proof.
  intros Hrun Hl. split; [done|].
  unfold New. rewrite Hrun, bind_Ret, (capture_Some _ _ _ _ Hl), bind_Ret.
  repeat split.
  - intros Hf f n HC. rewrite HC. by case_decide.
  - intros Hf HC. rewrite HC. by case_decide.
  - intros Hf. by case_decide.
Qed.

Lemma New_capture_witness :
  New three_frames [Depth 1] ∅ =
    Ret (Some (own (Some 1%positive)),
         {[ 1%positive := mkErroneous "" None None "main.go" 7 1 ]})
  ∧ New no_frames [Source "" 5] ∅ =
    Ret (Some (own (Some 1%positive)),
         {[ 1%positive := mkErroneous "" None None "" 5 2 ]})
  ∧ New three_frames [Source "a.go" 1] ∅ =
    Ret (Some (own (Some 1%positive)),
         {[ 1%positive := mkErroneous "" None None "a.go" 1 2 ]}).
Proof.
  split; [|split].
  - pose proof (New_capture three_frames [Depth 1] ∅
                  {[ 1%positive := set_depth 1 builder ]} (set_depth 1 builder)
                  eq_refl eq_refl) as (_ & H & _).
    rewrite (H eq_refl "main.go" 7%Z eq_refl). by vm_compute.
  - pose proof (New_capture no_frames [Source "" 5] ∅
                  {[ 1%positive := mkErroneous "" None None "" 5 2 ]}
                  (mkErroneous "" None None "" 5 2)
                  ltac:(by vm_compute) eq_refl) as (_ & _ & H & _).
    exact (H eq_refl eq_refl).
  - pose proof (New_capture three_frames [Source "a.go" 1] ∅
                  {[ 1%positive := mkErroneous "" None None "a.go" 1 2 ]}
                  (mkErroneous "" None None "a.go" 1 2)
                  ltac:(by vm_compute) eq_refl) as (_ & _ & _ & H).
    exact (H ltac:(done)).
Defined.

(** C6, as stated, fails twice: after [Source("", 5)] a failed resolution
    leaves line 5, not zero; and after [Source("a.go", 1)], [Source("", 0)]
    a unit has set a non-empty file, yet the caller is resolved and
    stored. *)
Lemma New_capture_line_kept :
  New no_frames [Source "" 5] ∅ =
    Ret (Some (own (Some 1%positive)),
         {[ 1%positive := mkErroneous "" None None "" 5 2 ]})
  ∧ New three_frames [Source "a.go" 1; Source "" 0] ∅ =
    Ret (Some (own (Some 1%positive)),
         {[ 1%positive := mkErroneous "" None None "proc.go" 250 2 ]}).
Proof. by vm_compute. Qed.

(** C5: [New(Msg(m, f))] with a non-nil [f] whose "error" entry is an error
    of another type returns a new record with message [m], fields [f] and
    that error as cause; its [Message()] is [m], ": " and the error's text
    when [m] is not empty; and the call goes as if the units had been
    [Msg(m, nil)], [Fields(f)] and then [Err] of that error. *)
Theorem Msg_error_field_promoted Caller m f t h :
  f !! "error" = Some (VError (foreign t)) →
  ∃ h' r,
    New Caller [Msg m (Some f)] h = Ret (Some (own (Some (fresh (dom h)))), h')
    ∧ h' !! fresh (dom h) = Some r
    ∧ msg r = m ∧ fields r = Some f ∧ err r = Some (foreign t)
    ∧ (m ≠ "" → ∀ fuel,
         Erroneous_Message (S fuel) h' (Some (fresh (dom h)))
           = Ret (m +:+ ": " +:+ t))
    ∧ ∀ rest,
        New Caller (Msg m (Some f) :: rest) h =
        New Caller (Msg m None :: Fields (Some f) :: Err (Some (foreign t)) :: rest) h.
Proof.
  intros Hf.
  set (r0 := mkErroneous m (Some (foreign t)) (Some f) "" 0 2).
  set (r := match Caller 2%Z with
            | Some (f', n) => set_line n (set_file f' r0)
            | None => r0
            end).
  assert (Hr : msg r = m ∧ fields r = Some f ∧ err r = Some (foreign t)).
  { subst r. by destruct (Caller 2%Z) as [[f' n]|]. }
  destruct Hr as (Hm & Hfs & He).
  exists (<[fresh (dom h) := r]> h), r. split.
  { run_units. rewrite Hf. run_units.
    subst r r0. cbn. by destruct (Caller 2%Z) as [[f' n]|]. }
  split; [apply lookup_insert_eq|]. repeat split; try done.
  - intros Hne fuel.
    pose proof (Message_cases fuel (<[fresh (dom h) := r]> h) _ r
                  (lookup_insert_eq _ _ _)) as (_ & _ & _ & HM).
    rewrite (HM t He), Hm. by destruct (decide (m = "")).
  - intros rest. run_units. rewrite Hf. by run_units.
Qed.

Lemma Msg_error_field_promoted_witness :
  ∃ h' r,
    New three_frames [Msg "failed" (Some {[ "error" := VError (foreign "boom") ]})] ∅
      = Ret (Some (own (Some 1%positive)), h')
    ∧ h' !! 1%positive = Some r
    ∧ err r = Some (foreign "boom")
    ∧ Erroneous_Message 1 h' (Some 1%positive) = Ret "failed: boom".
Proof.
  destruct (Msg_error_field_promoted three_frames "failed"
              {[ "error" := VError (foreign "boom") ]} "boom" ∅
              ltac:(by vm_compute))
    as (h' & r & HNew & Hl & _ & _ & He & HM & _).
  exists h', r. repeat split; try done. by apply (HM ltac:(done) 0).
Defined.

(** C7: in [New(Msg(m, f1), Fields(f2))], with [f1] non-nil and without a
    [*Erroneous] under "error", the record returned has fields [f2] and
    message [m]. *)
Theorem Fields_after_Msg Caller m f1 f2 h :
  (∀ p, f1 !! "error" ≠ Some (VError (own p))) →
  ∃ h' r,
    New Caller [Msg m (Some f1); Fields f2] h
      = Ret (Some (own (Some (fresh (dom h)))), h')
    ∧ h' !! fresh (dom h) = Some r
    ∧ fields r = f2 ∧ msg r = m
    ∧ Erroneous_Fields h' (Some (fresh (dom h))) = Ret f2.
Proof.
  intros Hf.
  set (c := match f1 !! "error" with Some (VError d) => Some d | _ => None end).
  set (r0 := mkErroneous m c f2 "" 0 2).
  set (r := match Caller 2%Z with
            | Some (f', n) => set_line n (set_file f' r0)
            | None => r0
            end).
  assert (Hr : fields r = f2 ∧ msg r = m).
  { subst r. by destruct (Caller 2%Z) as [[f' n]|]. }
  destruct Hr as (Hfs & Hm).
  exists (<[fresh (dom h) := r]> h), r. split.
  { run_units. subst r r0 c.
    destruct (f1 !! "error") as [[|b|z|s|[p|t]|]|] eqn:He;
      try (by destruct (Hf p)); run_units; cbn;
      by destruct (Caller 2%Z) as [[f' n]|]. }
  split; [apply lookup_insert_eq|]. repeat split; try done.
  unfold Erroneous_Fields.
  by rewrite (deref_Some _ _ r) by apply lookup_insert_eq; rewrite bind_Ret, Hfs.
Qed.

Lemma Fields_after_Msg_witness :
  ∃ h' r,
    New three_frames [Msg "m" (Some {[ "a" := VInt 1 ]}); Fields (Some k_v)] ∅
      = Ret (Some (own (Some 1%positive)), h')
    ∧ h' !! 1%positive = Some r
    ∧ fields r = Some k_v ∧ msg r = "m".
Proof.
  destruct (Fields_after_Msg three_frames "m" {[ "a" := VInt 1 ]} (Some k_v) ∅)
    as (h' & r & HNew & Hl & Hfs & Hm & _); [done|].
  by exists h', r.
Defined.

(** A record allocated before a call of [New] is not the builder of that
    call. *)
Lemma lookup_insert_fresh (h : heap) r' l r :
  h !! l = Some r → <[fresh (dom h) := r']> h !! l = Some r.
Proof.
  intros Hl. rewrite lookup_insert_ne; [done|].
  intros <-. by rewrite fresh_unallocated in Hl.
Qed.

(** C8: in a heap built by calls of [New] on standard units, no record has a
    [*Erroneous] as its cause, and a further call of [New] on standard units
    keeps it so.  Handing a [*Erroneous] to [Err], or to [Msg] under the
    "error" key, makes [New] return that same value, and every record
    allocated before the call is left as it was. *)
Theorem built_no_nested_cause h :
  built h →
  (∀ l r, h !! l = Some r → is_own (err r) = false)
  ∧ (∀ Caller opts x h', Forall standard opts →
       New Caller opts h = Ret (x, h') →
       ∀ l r, h' !! l = Some r → is_own (err r) = false)
  ∧ (∀ Caller p rest, ∃ h',
       New Caller (Err (Some (own p)) :: rest) h = Ret (Some (own p), h')
       ∧ ∀ l r, h !! l = Some r → h' !! l = Some r)
  ∧ (∀ Caller m f p rest, f !! "error" = Some (VError (own p)) → ∃ h',
       New Caller (Msg m (Some f) :: rest) h = Ret (Some (own p), h')
       ∧ ∀ l r, h !! l = Some r → h' !! l = Some r).
Proof.
  intros Hb. repeat split.
  - by apply built_no_own_cause.
  - intros Caller opts x h' Hstd HNew.
    apply built_no_own_cause. by eapply built_New.
  - intros Caller p rest. eexists. split; [by run_units|].
    intros l r. apply lookup_insert_fresh.
  - intros Caller m f p rest Hf. eexists. split.
    + run_units. rewrite Hf. reflexivity.
    + intros l r. apply lookup_insert_fresh.
Qed.

Lemma built_no_nested_cause_witness :
  is_own (err (mkErroneous "a" None None "proc.go" 250 2)) = false
  ∧ ∃ h',
      New three_frames [Err (Some (own (Some 1%positive)))] two_records
        = Ret (Some (own (Some 1%positive)), h')
      ∧ h' !! 1%positive = Some (mkErroneous "a" None None "proc.go" 250 2).
Proof.
  destruct (built_no_nested_cause two_records two_records_built)
    as (Hinv & _ & Hret & _).
  split; [exact (Hinv 1%positive _ eq_refl)|].
  destruct (Hret three_frames (Some 1%positive) []) as (h' & HNew & Hframe).
  exists h'. split; [exact HNew|]. apply Hframe. reflexivity.
Defined.

(** * Further properties of the units and the constructor *)

(** ** Units on an allocated builder *)

Lemma Fields_insert f l r h :
  Fields f (Some l) (<[l := r]> h) = Ret (None, <[l := set_fields f r]> h).
Proof. unfold Fields. by rewrite store_insert. Qed.

Lemma Source_insert f n l r h :
  Source f n (Some l) (<[l := r]> h)
    = Ret (None, <[l := set_line n (set_file f r)]> h).
Proof. unfold Source. by rewrite store_insert, bind_Ret, store_insert. Qed.

Lemma Depth_insert n l r h :
  Depth n (Some l) (<[l := r]> h) = Ret (None, <[l := set_depth n r]> h).
Proof. unfold Depth. by rewrite store_insert. Qed.

Lemma Err_insert x l r h :
  Err x (Some l) (<[l := r]> h) =
    Ret (if is_own x then (x, <[l := r]> h) else (None, <[l := set_err x r]> h)).
Proof.
  unfold Err. destruct x as [[p|t]|]; [done|..]; by rewrite store_insert.
Qed.

Lemma Msg_insert m f l r h :
  Msg m f (Some l) (<[l := r]> h) =
    match f with
    | Some fm =>
      match fm !! "error" with
      | Some (VError d) =>
        Err (Some d) (Some l) (<[l := set_fields f (set_msg m r)]> h)
      | _ => Ret (None, <[l := set_fields f (set_msg m r)]> h)
      end
    | None => Ret (None, <[l := set_msg m r]> h)
    end.
Proof.
  unfold Msg. rewrite store_insert, bind_Ret. destruct f as [fm|]; [|done].
  by rewrite store_insert, bind_Ret.
Qed.

(** Rewrites the units applied to an allocated builder. *)
Ltac units :=
  rewrite ?Fields_insert, ?Source_insert, ?Depth_insert, ?Err_insert,
    ?Msg_insert, ?bind_Ret.

(** Steps through the units at the head of a list, on an allocated builder. *)
Ltac step_units :=
  cbn [app range_opts]; repeat (progress units; cbn beta iota zeta).

(** A standard unit returns nil or a [*Erroneous]. *)
Lemma standard_step_result fn l r h :
  standard fn →
  ∃ x r', fn (Some l) (<[l := r]> h) = Ret (x, <[l := r']> h)
          ∧ (x = None ∨ ∃ p, x = Some (own p)).
Proof.
  destruct 1 as [m f|f|x|f n|n]; units.
  - destruct f as [fm|]; [|by eexists _, _; eauto].
    destruct (fm !! "error") as [[| | | |[p|t]|]|];
      units; cbn; eexists _, _; eauto.
  - eexists _, _; eauto.
  - destruct x as [[p|t]|]; cbn; eexists _, _; eauto.
  - eexists _, _; eauto.
  - eexists _, _; eauto.
Qed.

Lemma range_standard_result opts l r h :
  Forall standard opts →
  ∃ x r', range_opts opts (Some l) (<[l := r]> h) = Ret (x, <[l := r']> h)
          ∧ (x = None ∨ ∃ p, x = Some (own p)).
Proof.
  intros Hstd. revert r.
  induction Hstd as [|fn opts Hfn _ IH]; intros r; cbn [range_opts].
  { eexists _, _; eauto. }
  destruct (standard_step_result fn l r h Hfn) as (x & r1 & -> & Hx).
  rewrite bind_Ret. destruct Hx as [->|[p ->]]; [apply IH|].
  eexists _, _; eauto.
Qed.

(** [New] once the loop has ended without an early return. *)
Lemma New_after_units Caller opts h r :
  range_opts opts (Some (fresh (dom h))) (<[fresh (dom h) := builder]> h)
    = Ret (None, <[fresh (dom h) := r]> h) →
  New Caller opts h =
    Ret (Some (own (Some (fresh (dom h)))),
         <[fresh (dom h) := captured Caller r]> h).
Proof.
  intros Hrun. unfold New. rewrite Hrun, bind_Ret, capture_insert, bind_Ret.
  unfold captured. case_decide; [|done].
  by destruct (Caller (depth r)) as [[f n]|].
Qed.

(** Replacing units in the middle of the list by units that do the same to
    an allocated builder. *)
Lemma New_congruence Caller pre us vs post h :
  Forall standard pre →
  (∀ l r k, range_opts (us ++ post) (Some l) (<[l := r]> k)
            = range_opts (vs ++ post) (Some l) (<[l := r]> k)) →
  New Caller (pre ++ us ++ post) h = New Caller (pre ++ vs ++ post) h.
Proof.
  intros Hstd Heq. unfold New. rewrite !range_opts_app.
  destruct (range_standard pre (fresh (dom h)) builder h Hstd)
    as (x & r & -> & _).
  rewrite !bind_Ret. destruct x as [d|]; [done|]. by rewrite Heq.
Qed.

Lemma quiet_standard src dep fn : quiet src dep fn → standard fn.
Proof. destruct 1; constructor. Qed.

Lemma Forall_quiet_standard src dep opts :
  Forall (quiet src dep) opts → Forall standard opts.
Proof. intros Hq. eapply Forall_impl; [done | apply quiet_standard]. Qed.

(** A quiet unit returns nil, and writes neither the source position nor
    the depth unless it is a [Source] or a [Depth] unit. *)
Lemma quiet_step src dep fn l r h :
  quiet src dep fn →
  ∃ r', fn (Some l) (<[l := r]> h) = Ret (None, <[l := r']> h)
        ∧ (src = false → file r' = file r ∧ line r' = line r)
        ∧ (dep = false → depth r' = depth r).
Proof.
  destruct 1 as [m f Hf|f|x Hx|f n Hs|n Hd]; units.
  - destruct f as [fm|]; [|by eexists].
    unfold no_own_entry in Hf.
    destruct (fm !! "error") as [[| | | |[p|t]|]|]; try done;
      units; cbn; by eexists.
  - by eexists.
  - rewrite Hx. by eexists.
  - eexists. split; [done|]. by split; intros ->.
  - eexists. split; [done|]. by split; intros ->.
Qed.

Lemma quiet_range src dep opts l r h :
  Forall (quiet src dep) opts →
  ∃ r', range_opts opts (Some l) (<[l := r]> h) = Ret (None, <[l := r']> h)
        ∧ (src = false → file r' = file r ∧ line r' = line r)
        ∧ (dep = false → depth r' = depth r).
Proof.
  intros Hq. revert r.
  induction Hq as [|fn opts Hfn _ IH]; intros r; cbn [range_opts].
  { by eexists. }
  destruct (quiet_step src dep fn l r h Hfn) as (r1 & -> & Hs1 & Hd1).
  rewrite bind_Ret. destruct (IH r1) as (r2 & -> & Hs2 & Hd2).
  eexists. split; [done|]. split.
  - intros Hs. destruct (Hs1 Hs), (Hs2 Hs). split; congruence.
  - intros Hd. rewrite (Hd2 Hd). by apply Hd1.
Qed.

Lemma captured_empty_file Caller r :
  file r = "" →
  captured Caller r =
    match Caller (depth r) with
    | Some (f, n) => set_line n (set_file f r)
    | None => r
    end.
Proof. intros Hf. unfold captured. by case_decide. Qed.

Lemma captured_file Caller r : file r ≠ "" → captured Caller r = r.
Proof. intros Hf. unfold captured. by case_decide. Qed.

Lemma Source_lookup (h : heap) l r :
  Erroneous_Source (<[l := r]> h) (Some l) = Ret (file r, line r).
Proof.
  unfold Erroneous_Source.
  by rewrite (deref_Some _ l r) by apply lookup_insert_eq.
Qed.

(** ** What New returns *)

(** X1: on standard units [New] always returns, and what it returns is a
    [*Erroneous] inside a non-nil interface, never nil and never an error of
    another type; the call allocates one address and leaves every record
    that existed before as it was. *)
Theorem New_returns_own Caller opts h :
  Forall standard opts →
  ∃ p h',
    New Caller opts h = Ret (Some (own p), h')
    ∧ (∀ l r, h !! l = Some r → h' !! l = Some r)
    ∧ dom h' = {[ fresh (dom h) ]} ∪ dom h.
Proof.
  intros Hstd. unfold New.
  destruct (range_standard_result opts (fresh (dom h)) builder h Hstd)
    as (x & r & -> & Hx).
  rewrite bind_Ret. destruct Hx as [->|[p ->]].
  - rewrite capture_insert, bind_Ret. eexists _, _. split; [done|].
    case_decide; [destruct (Caller (depth r)) as [[f n]|]|];
      (split; [intros l' r'; apply lookup_insert_fresh | apply dom_insert_L]).
  - eexists _, _. split; [done|].
    split; [intros l' r'; apply lookup_insert_fresh | apply dom_insert_L].
Qed.

Lemma New_returns_own_witness :
  ∃ p h',
    New three_frames
      [Msg "again" (Some {[ "error" := VError (own (Some 2%positive)) ]});
       Source "x.go" 3] two_records
      = Ret (Some (own p), h')
    ∧ h' !! 1%positive = Some (mkErroneous "a" None None "proc.go" 250 2).
Proof.
  destruct (New_returns_own three_frames
              [Msg "again" (Some {[ "error" := VError (own (Some 2%positive)) ]});
               Source "x.go" 3] two_records ltac:(repeat constructor))
    as (p & h' & HNew & Hframe & _).
  exists p, h'. split; [exact HNew|]. apply Hframe. reflexivity.
Defined.

(** ** The source position *)

(** X2: when the units are [Msg], [Fields] and [Err] units that do not
    short-circuit, [New] resolves the caller two frames up: [Source()] of
    the record returned is the file and line found there, and the empty
    file with line zero when nothing is found. *)
Theorem New_default_capture Caller opts h :
  Forall (quiet false false) opts →
  ∃ h',
    New Caller opts h = Ret (Some (own (Some (fresh (dom h)))), h')
    ∧ Erroneous_Source h' (Some (fresh (dom h)))
      = Ret (default ("", 0%Z) (Caller 2%Z)).
Proof.
  intros Hq.
  destruct (quiet_range false false opts (fresh (dom h)) builder h Hq)
    as (r & Hrun & Hs & Hd).
  destruct (Hs eq_refl) as [Hfile Hline]. specialize (Hd eq_refl).
  cbn in Hfile, Hline, Hd. eexists. split; [apply (New_after_units _ _ _ _ Hrun)|].
  rewrite Source_lookup, (captured_empty_file _ _ Hfile), Hd.
  destruct (Caller 2%Z) as [[f n]|]; cbn; [done|]. by rewrite Hfile, Hline.
Qed.

Lemma New_default_capture_witness :
  ∃ h',
    New three_frames [Msg "m" (Some k_v); Err (Some (foreign "boom"))] ∅
      = Ret (Some (own (Some 1%positive)), h')
    ∧ Erroneous_Source h' (Some 1%positive) = Ret ("proc.go", 250%Z).
Proof.
  destruct (New_default_capture three_frames
              [Msg "m" (Some k_v); Err (Some (foreign "boom"))] ∅
              ltac:(repeat constructor)) as (h' & HNew & HS).
  exists h'. split; [exact HNew | exact HS].
Defined.

(** X3: a [Depth(d)] unit, with no [Source] unit around it and no [Depth]
    unit after it, makes [New] resolve the caller [d] frames up: [Source()]
    is what is found there, and the empty file with line zero when nothing
    is found. *)
Theorem New_Depth_capture Caller pre d post h :
  Forall (quiet false true) pre →
  Forall (quiet false false) post →
  ∃ h',
    New Caller (pre ++ Depth d :: post) h
      = Ret (Some (own (Some (fresh (dom h)))), h')
    ∧ Erroneous_Source h' (Some (fresh (dom h)))
      = Ret (default ("", 0%Z) (Caller d)).
Proof.
  intros Hpre Hpost.
  destruct (quiet_range false true pre (fresh (dom h)) builder h Hpre)
    as (r1 & Hrun1 & Hs1 & _).
  destruct (Hs1 eq_refl) as [Hfile1 Hline1]. cbn in Hfile1, Hline1.
  destruct (quiet_range false false post (fresh (dom h)) (set_depth d r1) h Hpost)
    as (r2 & Hrun2 & Hs2 & Hd2).
  destruct (Hs2 eq_refl) as [Hfile2 Hline2]. specialize (Hd2 eq_refl).
  assert (Hrun : range_opts (pre ++ Depth d :: post) (Some (fresh (dom h)))
                   (<[fresh (dom h) := builder]> h)
                 = Ret (None, <[fresh (dom h) := r2]> h)).
  { rewrite range_opts_app, Hrun1, bind_Ret. cbn [range_opts].
    by rewrite Depth_insert, bind_Ret. }
  eexists. split; [apply (New_after_units _ _ _ _ Hrun)|].
  cbn in Hfile2, Hline2, Hd2. rewrite Hfile1 in Hfile2. rewrite Hline1 in Hline2.
  rewrite Source_lookup, (captured_empty_file _ _ Hfile2), Hd2.
  destruct (Caller d) as [[f n]|]; cbn; [done|]. by rewrite Hfile2, Hline2.
Qed.

Lemma New_Depth_capture_witness :
  ∃ h',
    New three_frames ([Depth 0; Msg "m" None] ++ Depth 1 :: [Fields (Some k_v)]) ∅
      = Ret (Some (own (Some 1%positive)), h')
    ∧ Erroneous_Source h' (Some 1%positive) = Ret ("main.go", 7%Z).
Proof.
  destruct (New_Depth_capture three_frames [Depth 0; Msg "m" None] 1
              [Fields (Some k_v)] ∅ ltac:(repeat constructor)
              ltac:(repeat constructor)) as (h' & HNew & HS).
  exists h'. split; [exact HNew | exact HS].
Defined.

(** X4: a [Source(f, n)] unit with a non-empty file, with no [Source] unit
    after it and no unit that short-circuits, settles the source position:
    [Source()] of the record returned is [(f, n)], whatever the call stack
    and whatever depth a [Depth] unit asked for. *)
Theorem New_Source_wins Caller pre f n post h :
  Forall (quiet true true) pre →
  Forall (quiet false true) post →
  f ≠ "" →
  ∃ h',
    New Caller (pre ++ Source f n :: post) h
      = Ret (Some (own (Some (fresh (dom h)))), h')
    ∧ Erroneous_Source h' (Some (fresh (dom h))) = Ret (f, n)
    ∧ ∀ Caller',
        New Caller' (pre ++ Source f n :: post) h
          = Ret (Some (own (Some (fresh (dom h)))), h').
Proof.
  intros Hpre Hpost Hf.
  destruct (quiet_range true true pre (fresh (dom h)) builder h Hpre)
    as (r1 & Hrun1 & _).
  destruct (quiet_range false true post (fresh (dom h))
              (set_line n (set_file f r1)) h Hpost)
    as (r2 & Hrun2 & Hs2 & _).
  destruct (Hs2 eq_refl) as [Hfile2 Hline2]. cbn in Hfile2, Hline2.
  assert (Hrun : range_opts (pre ++ Source f n :: post) (Some (fresh (dom h)))
                   (<[fresh (dom h) := builder]> h)
                 = Ret (None, <[fresh (dom h) := r2]> h)).
  { rewrite range_opts_app, Hrun1, bind_Ret. cbn [range_opts].
    by rewrite Source_insert, bind_Ret. }
  assert (Hcap : ∀ C, captured C r2 = r2).
  { intros C. apply captured_file. by rewrite Hfile2. }
  exists (<[fresh (dom h) := r2]> h). repeat split.
  - by rewrite (New_after_units _ _ _ _ Hrun), Hcap.
  - by rewrite Source_lookup, Hfile2, Hline2.
  - intros C. by rewrite (New_after_units _ _ _ _ Hrun), Hcap.
Qed.

Lemma New_Source_wins_witness :
  ∃ h',
    New three_frames ([Source "old.go" 1] ++ Source "f.go" 10 :: [Depth 1]) ∅
      = Ret (Some (own (Some 1%positive)), h')
    ∧ Erroneous_Source h' (Some 1%positive) = Ret ("f.go", 10%Z).
Proof.
  destruct (New_Source_wins three_frames [Source "old.go" 1] "f.go" 10
              [Depth 1] ∅ ltac:(repeat constructor) ltac:(repeat constructor)
              ltac:(done)) as (h' & HNew & HS & _).
  exists h'. split; [exact HNew | exact HS].
Defined.

(** ** How units compose *)

Lemma captured_keeps Caller r :
  msg (captured Caller r) = msg r
  ∧ err (captured Caller r) = err r
  ∧ fields (captured Caller r) = fields r
  ∧ depth (captured Caller r) = depth r.
Proof.
  unfold captured. case_decide; [|done].
  by destruct (Caller (depth r)) as [[f n]|].
Qed.

(** X5: of two neighbouring units that set the same slot, only the later
    counts: [Fields], [Source] and [Depth] units replace an earlier unit of
    their kind, an [Err] unit replaces an earlier [Err] when neither holds
    a [*Erroneous], and a [Msg] unit replaces an earlier [Msg] with nil
    fields. *)
Theorem later_setter_wins Caller pre post h :
  Forall standard pre →
  (∀ f1 f2,
     New Caller (pre ++ Fields f1 :: Fields f2 :: post) h
     = New Caller (pre ++ Fields f2 :: post) h)
  ∧ (∀ f1 n1 f2 n2,
       New Caller (pre ++ Source f1 n1 :: Source f2 n2 :: post) h
       = New Caller (pre ++ Source f2 n2 :: post) h)
  ∧ (∀ d1 d2,
       New Caller (pre ++ Depth d1 :: Depth d2 :: post) h
       = New Caller (pre ++ Depth d2 :: post) h)
  ∧ (∀ x y, is_own x = false → is_own y = false →
       New Caller (pre ++ Err x :: Err y :: post) h
       = New Caller (pre ++ Err y :: post) h)
  ∧ (∀ m1 m2 f,
       New Caller (pre ++ Msg m1 None :: Msg m2 f :: post) h
       = New Caller (pre ++ Msg m2 f :: post) h).
Proof.
  intros Hstd. repeat split.
  - intros f1 f2.
    apply (New_congruence Caller pre [Fields f1; Fields f2] [Fields f2] post h Hstd).
    intros l r k. by step_units.
  - intros f1 n1 f2 n2.
    apply (New_congruence Caller pre [Source f1 n1; Source f2 n2]
             [Source f2 n2] post h Hstd).
    intros l r k. by step_units.
  - intros d1 d2.
    apply (New_congruence Caller pre [Depth d1; Depth d2] [Depth d2] post h Hstd).
    intros l r k. by step_units.
  - intros x y Hx Hy.
    apply (New_congruence Caller pre [Err x; Err y] [Err y] post h Hstd).
    intros l r k. cbn [app range_opts]. rewrite !Err_insert, Hx, bind_Ret.
    by rewrite Err_insert, Hy.
  - intros m1 m2 f.
    apply (New_congruence Caller pre [Msg m1 None; Msg m2 f] [Msg m2 f] post h Hstd).
    intros l r k. cbn [app range_opts]. rewrite (Msg_insert m1 None), bind_Ret.
    by rewrite !Msg_insert.
Qed.

Lemma later_setter_wins_witness :
  New three_frames ([Msg "m" None] ++ Fields (Some k_v) :: Fields None :: [Depth 1]) ∅
  = New three_frames ([Msg "m" None] ++ Fields None :: [Depth 1]) ∅
  ∧ New three_frames
      ([Msg "m" None] ++ Err (Some (foreign "a")) :: Err (Some (foreign "b")) :: []) ∅
    = New three_frames ([Msg "m" None] ++ Err (Some (foreign "b")) :: []) ∅.
Proof.
  split.
  - exact (proj1 (later_setter_wins three_frames [Msg "m" None] [Depth 1] ∅
                    ltac:(repeat constructor)) (Some k_v) None).
  - exact (proj1 (proj2 (proj2 (proj2
             (later_setter_wins three_frames [Msg "m" None] [] ∅
                ltac:(repeat constructor)))))
             (Some (foreign "a")) (Some (foreign "b")) eq_refl eq_refl).
Defined.

(** X6: units that set different slots may be swapped: [Source] with
    [Depth], [Fields] with [Source], [Fields] with [Depth], and an [Err] of
    an error of another type (or of nil) with [Fields]. *)
Theorem disjoint_units_commute Caller pre post h :
  Forall standard pre →
  (∀ f n d,
     New Caller (pre ++ Source f n :: Depth d :: post) h
     = New Caller (pre ++ Depth d :: Source f n :: post) h)
  ∧ (∀ fs f n,
       New Caller (pre ++ Fields fs :: Source f n :: post) h
       = New Caller (pre ++ Source f n :: Fields fs :: post) h)
  ∧ (∀ fs d,
       New Caller (pre ++ Fields fs :: Depth d :: post) h
       = New Caller (pre ++ Depth d :: Fields fs :: post) h)
  ∧ (∀ x fs, is_own x = false →
       New Caller (pre ++ Err x :: Fields fs :: post) h
       = New Caller (pre ++ Fields fs :: Err x :: post) h).
Proof.
  intros Hstd. repeat split.
  - intros f n d.
    apply (New_congruence Caller pre [Source f n; Depth d]
             [Depth d; Source f n] post h Hstd).
    intros l r k. by step_units.
  - intros fs f n.
    apply (New_congruence Caller pre [Fields fs; Source f n]
             [Source f n; Fields fs] post h Hstd).
    intros l r k. by step_units.
  - intros fs d.
    apply (New_congruence Caller pre [Fields fs; Depth d]
             [Depth d; Fields fs] post h Hstd).
    intros l r k. by step_units.
  - intros x fs Hx.
    apply (New_congruence Caller pre [Err x; Fields fs]
             [Fields fs; Err x] post h Hstd).
    intros l r k. cbn [app range_opts].
    rewrite !Err_insert, Hx, !Fields_insert, !bind_Ret.
    by rewrite Err_insert, Fields_insert, Hx, !bind_Ret.
Qed.

Lemma disjoint_units_commute_witness :
  New three_frames ([Msg "m" None] ++ Source "f.go" 10 :: Depth 1 :: []) ∅
  = New three_frames ([Msg "m" None] ++ Depth 1 :: Source "f.go" 10 :: []) ∅
  ∧ New three_frames ([] ++ Err None :: Fields (Some k_v) :: []) ∅
    = New three_frames ([] ++ Fields (Some k_v) :: Err None :: []) ∅.
Proof.
  split.
  - exact (proj1 (disjoint_units_commute three_frames [Msg "m" None] [] ∅
                    ltac:(repeat constructor)) "f.go" 10%Z 1%Z).
  - exact (proj2 (proj2 (proj2
             (disjoint_units_commute three_frames [] [] ∅
                ltac:(repeat constructor))))
             None (Some k_v) eq_refl).
Defined.

(** X7: [Msg(m, f)] with a non-nil [f] is [Msg(m, nil)], then [Fields(f)],
    then [Err] of the value under "error" when that value is an error, of
    whatever type; when the key is missing or its value is not an error,
    nothing follows [Fields(f)] and the cause is left alone. *)
Theorem Msg_decomposed Caller pre m fm post h :
  Forall standard pre →
  (∀ d, fm !! "error" = Some (VError d) →
     New Caller (pre ++ Msg m (Some fm) :: post) h
     = New Caller
         (pre ++ Msg m None :: Fields (Some fm) :: Err (Some d) :: post) h)
  ∧ ((∀ d, fm !! "error" ≠ Some (VError d)) →
     New Caller (pre ++ Msg m (Some fm) :: post) h
     = New Caller (pre ++ Msg m None :: Fields (Some fm) :: post) h).
Proof.
  intros Hstd. split.
  - intros d Hd.
    apply (New_congruence Caller pre [Msg m (Some fm)]
             [Msg m None; Fields (Some fm); Err (Some d)] post h Hstd).
    intros l r k. cbn [app range_opts].
    rewrite (Msg_insert m (Some fm)), Hd, (Msg_insert m None), bind_Ret.
    by rewrite Fields_insert, bind_Ret.
  - intros Hnone.
    apply (New_congruence Caller pre [Msg m (Some fm)]
             [Msg m None; Fields (Some fm)] post h Hstd).
    intros l r k. cbn [app range_opts].
    rewrite (Msg_insert m (Some fm)), (Msg_insert m None), bind_Ret.
    rewrite Fields_insert, bind_Ret.
    destruct (fm !! "error") as [[| | | |d|]|]; try done. by destruct (Hnone d).
Qed.

Lemma Msg_decomposed_witness :
  New three_frames
    ([Err (Some (foreign "first"))]
       ++ Msg "m" (Some {[ "error" := VString "not an error" ]}) :: []) ∅
  = New three_frames
      ([Err (Some (foreign "first"))]
         ++ Msg "m" None
         :: Fields (Some {[ "error" := VString "not an error" ]}) :: []) ∅
  ∧ New three_frames
      ([] ++ Msg "m" (Some {[ "error" := VError (own None) ]}) :: []) ∅
    = New three_frames
        ([] ++ Msg "m" None
            :: Fields (Some {[ "error" := VError (own None) ]})
            :: Err (Some (own None)) :: []) ∅.
Proof.
  split.
  - apply (proj2 (Msg_decomposed three_frames [Err (Some (foreign "first"))]
                    "m" {[ "error" := VString "not an error" ]} [] ∅
                    ltac:(repeat constructor))).
    intros d. by vm_compute.
  - apply (proj1 (Msg_decomposed three_frames [] "m"
                    {[ "error" := VError (own None) ]} [] ∅
                    ltac:(repeat constructor)) (own None)).
    by vm_compute.
Defined.

(** ** The cause *)

Lemma Message_lookup fuel (h : heap) l r :
  Erroneous_Message fuel (<[l := r]> h) (Some l) =
    match err r with
    | Some d =>
      t ← dyn_Error fuel (<[l := r]> h) d;
      Ret ((if decide (msg r = "") then msg r else msg r +:+ ": ") +:+ t)
    | None => Ret (msg r)
    end.
Proof. apply Message_unfold, lookup_insert_eq. Qed.

(** X8: [Err(nil)] does not short-circuit and does not make [New] return
    nil: after units that do not short-circuit, [New(..., Err(nil))] returns
    a new record without a cause, whatever cause an earlier unit had set,
    and its [Message()] is the stored message alone. *)
Theorem New_Err_nil Caller pre h :
  Forall (quiet true true) pre →
  ∃ h' r,
    New Caller (pre ++ [Err None]) h
      = Ret (Some (own (Some (fresh (dom h)))), h')
    ∧ h' !! fresh (dom h) = Some r
    ∧ err r = None
    ∧ ∀ fuel, Erroneous_Message fuel h' (Some (fresh (dom h))) = Ret (msg r).
Proof.
  intros Hpre.
  destruct (quiet_range true true pre (fresh (dom h)) builder h Hpre)
    as (r1 & Hrun1 & _).
  assert (Hrun : range_opts (pre ++ [Err None]) (Some (fresh (dom h)))
                   (<[fresh (dom h) := builder]> h)
                 = Ret (None, <[fresh (dom h) := set_err None r1]> h)).
  { rewrite range_opts_app, Hrun1, bind_Ret. cbn [range_opts].
    by rewrite Err_insert, bind_Ret. }
  destruct (captured_keeps Caller (set_err None r1)) as (_ & He & _).
  eexists _, _. split; [apply (New_after_units _ _ _ _ Hrun)|].
  split; [apply lookup_insert_eq|]. split; [exact He|].
  intros fuel. by rewrite Message_lookup, He.
Qed.

Lemma New_Err_nil_witness :
  ∃ h' r,
    New three_frames
      ([Msg "m" (Some {[ "error" := VError (foreign "boom") ]})] ++ [Err None]) ∅
      = Ret (Some (own (Some 1%positive)), h')
    ∧ h' !! 1%positive = Some r
    ∧ err r = None
    ∧ Erroneous_Message 0 h' (Some 1%positive) = Ret (msg r).
Proof.
  destruct (New_Err_nil three_frames
              [Msg "m" (Some {[ "error" := VError (foreign "boom") ]})] ∅
              ltac:(repeat constructor)) as (h' & r & HNew & Hl & He & HM).
  exists h', r. repeat split; [exact HNew | exact Hl | exact He | exact (HM 0)].
Defined.

(** X9: between an explicit [Err] and the error that [Msg] takes from the
    "error" entry of its fields, the one applied later is the cause of the
    record: [Msg] then [Err(x)] leaves cause [x] (none when [x] is nil),
    [Err(x)] then [Msg] leaves the entry's error, and [Message()] ends with
    that error's text. *)
Theorem cause_is_last_written Caller m fm a x h :
  fm !! "error" = Some (VError (foreign a)) →
  is_own x = false →
  (∃ h' r,
     New Caller [Msg m (Some fm); Err x] h
       = Ret (Some (own (Some (fresh (dom h)))), h')
     ∧ h' !! fresh (dom h) = Some r
     ∧ err r = x ∧ msg r = m ∧ fields r = Some fm)
  ∧ (∃ h' r,
       New Caller [Err x; Msg m (Some fm)] h
         = Ret (Some (own (Some (fresh (dom h)))), h')
       ∧ h' !! fresh (dom h) = Some r
       ∧ err r = Some (foreign a)
       ∧ ∀ fuel,
           Erroneous_Message (S fuel) h' (Some (fresh (dom h)))
             = Ret (if decide (m = "") then a else m +:+ ": " +:+ a)).
Proof.
  intros Hfm Hx. split.
  - assert (Hrun : range_opts [Msg m (Some fm); Err x] (Some (fresh (dom h)))
                     (<[fresh (dom h) := builder]> h)
                   = Ret (None, <[fresh (dom h) :=
                            mkErroneous m x (Some fm) "" 0 2]> h)).
    { cbn [range_opts]. rewrite Msg_insert, Hfm, Err_insert. cbn.
      by rewrite Err_insert, Hx. }
    destruct (captured_keeps Caller (mkErroneous m x (Some fm) "" 0 2))
      as (Hm & He & Hf & _).
    eexists _, _. split; [apply (New_after_units _ _ _ _ Hrun)|].
    split; [apply lookup_insert_eq|]. by repeat split.
  - assert (Hrun : range_opts [Err x; Msg m (Some fm)] (Some (fresh (dom h)))
                     (<[fresh (dom h) := builder]> h)
                   = Ret (None, <[fresh (dom h) :=
                            mkErroneous m (Some (foreign a)) (Some fm) "" 0 2]> h)).
    { cbn [range_opts]. rewrite Err_insert, Hx, bind_Ret.
      by rewrite Msg_insert, Hfm, Err_insert. }
    destruct (captured_keeps Caller
                (mkErroneous m (Some (foreign a)) (Some fm) "" 0 2))
      as (Hm & He & _).
    cbn [msg err] in Hm, He.
    eexists _, _. split; [apply (New_after_units _ _ _ _ Hrun)|].
    split; [apply lookup_insert_eq|]. split; [exact He|].
    intros fuel. rewrite Message_lookup, He, Hm, dyn_Error_foreign, bind_Ret.
    case_decide as Hmm; [by rewrite Hmm | by rewrite append_assoc].
Qed.

Lemma cause_is_last_written_witness :
  ∃ h' r,
    New three_frames
      [Msg "m" (Some {[ "error" := VError (foreign "inner") ]});
       Err (Some (foreign "outer"))] ∅
      = Ret (Some (own (Some 1%positive)), h')
    ∧ h' !! 1%positive = Some r
    ∧ err r = Some (foreign "outer").
Proof.
  destruct (cause_is_last_written three_frames "m"
              {[ "error" := VError (foreign "inner") ]} "inner"
              (Some (foreign "outer")) ∅ ltac:(by vm_compute) eq_refl)
    as [(h' & r & HNew & Hl & He & _) _].
  exists h', r. repeat split; [exact HNew | exact Hl | exact He].
Defined.

(** X10: [Fields(f)] as the last unit, after units that do not
    short-circuit, decides what [Fields()] returns: exactly [f], the nil
    map included, whatever fields an earlier [Msg] or [Fields] had set. *)
Theorem New_Fields_last Caller pre f h :
  Forall (quiet true true) pre →
  ∃ h',
    New Caller (pre ++ [Fields f]) h
      = Ret (Some (own (Some (fresh (dom h)))), h')
    ∧ Erroneous_Fields h' (Some (fresh (dom h))) = Ret f.
Proof.
  intros Hpre.
  destruct (quiet_range true true pre (fresh (dom h)) builder h Hpre)
    as (r1 & Hrun1 & _).
  assert (Hrun : range_opts (pre ++ [Fields f]) (Some (fresh (dom h)))
                   (<[fresh (dom h) := builder]> h)
                 = Ret (None, <[fresh (dom h) := set_fields f r1]> h)).
  { rewrite range_opts_app, Hrun1, bind_Ret. cbn [range_opts].
    by rewrite Fields_insert, bind_Ret. }
  destruct (captured_keeps Caller (set_fields f r1)) as (_ & _ & Hf & _).
  eexists. split; [apply (New_after_units _ _ _ _ Hrun)|].
  unfold Erroneous_Fields.
  rewrite (deref_Some _ _ (captured Caller (set_fields f r1)))
    by apply lookup_insert_eq.
  by rewrite bind_Ret, Hf.
Qed.

Lemma New_Fields_last_witness :
  ∃ h',
    New three_frames ([Msg "m" (Some k_v)] ++ [Fields None]) ∅
      = Ret (Some (own (Some 1%positive)), h')
    ∧ Erroneous_Fields h' (Some 1%positive) = Ret None.
Proof.
  destruct (New_Fields_last three_frames [Msg "m" (Some k_v)] None ∅
              ltac:(repeat constructor)) as (h' & HNew & HF).
  exists h'. split; [exact HNew | exact HF].
Defined.

(** ** Rendering records the package has built *)



(** ** The fields segment *)



Lemma encode_map_nonempty (fm : gmap string value) data :
  Json.encode_map fm = Some data → 0 < String.length data.
Proof.
  unfold Json.encode_map. intros Henc.
  destruct (mapM Json.encode_entry _) as [entries|]; [|done].
  injection Henc as <-.
  change (0 < S (String.length (String.concat "," entries +:+ "}"))). lia.
Qed.

(** X12: for a record whose fields are not nil, [Error()] leaves the fields
    segment out exactly when [json.Marshal] reports an error; when it
    reports none the segment is two spaces and the bytes it returned, which
    are never empty. *)
Theorem fields_segment_encoded r fm :
  fields r = Some fm →
  (fields_segment r = "" ↔ (Json.Marshal (Some fm)).2 ≠ None)
  ∧ (∀ data, Json.Marshal (Some fm) = (data, None) →
       fields_segment r = "  " +:+ data ∧ 0 < String.length data).
Proof.
  intros Hf. unfold fields_segment. rewrite Hf. unfold Json.Marshal.
  destruct (Json.encode_map fm) as [data|] eqn:Henc; cbn [fst snd].
  - pose proof (encode_map_nonempty fm data Henc) as Hlen.
    case_decide; [|done]. split.
    + split; [intros Hnil; discriminate Hnil | done].
    + intros data' [= <-]. by split.
  - split; [by split | intros data' [=]].
Qed.

Lemma fields_segment_encoded_witness :
  fields_segment (mkErroneous "m" None (Some ∅) "" 0 2) = "  {}"
  ∧ 0 < String.length "{}".
Proof.
  exact (proj2 (fields_segment_encoded (mkErroneous "m" None (Some ∅) "" 0 2)
                  ∅ eq_refl) "{}" eq_refl).
Defined.


